(** * Verification of the color engine of spotify_token_server.py

    Shallow embedding of the genre/popularity to RGB pipeline, the BPM
    colorizer, the artist genre cache and the [/update_context] route.

    Modelling choices:
    - Python floats are modelled by exact rationals [Q]; Python ints by [Z].
    - [int(x)] on a float truncates toward zero: [Z.quot] on the fraction.
    - Python exceptions are values of [exn]; a computation that may raise
      lives in the error monad [res].  An exception that escapes a Flask
      route becomes an HTTP 500 response.
    - Strings are Stdlib [string]s of ASCII characters; [str.lower] is
      modelled on ASCII.
    - A Python dict is an association list in insertion order. *)

From Stdlib Require Import QArith Qminmax Qround ZArith String Ascii List Bool Lia Lqa.
Import ListNotations.
Open Scope Q_scope.

(** ** Python exceptions and the error monad *)

Inductive exn :=
| KeyError
| IndexError
| TypeError
| ZeroDivisionError
| SpotifyException   (** non-success HTTP status from the Web API *)
| ConnectionError.   (** network or authentication failure *)

Inductive res (A : Type) :=
| Ok (a : A)
| Raise (e : exn).
Arguments Ok {A} a.
Arguments Raise {A} e.

Definition res_bind {A B} (m : res A) (k : A -> res B) : res B :=
  match m with
  | Ok a => k a
  | Raise e => Raise e
  end.

Notation "'let!' x := m 'in' k" := (res_bind m (fun x => k))
  (at level 200, x name, m at level 100, k at level 200).

(** ** Numeric primitives *)

(** [int(x)] for a float: truncation toward zero. *)
Definition py_int (x : Q) : Z := Z.quot (Qnum x) (Zpos (Qden x)).

(** [a < b] on floats. *)
Definition qltb (a b : Q) : bool := negb (Qle_bool b a).

(** Python's [min(a, b)] returns [a] unless [b < a]; [max(a, b)] returns
    [a] unless [b > a]. *)
Definition py_minQ (a b : Q) : Q := if qltb b a then b else a.
Definition py_maxQ (a b : Q) : Q := if qltb a b then b else a.

(** [a / b] on floats: raises [ZeroDivisionError] when [b == 0]. *)
Definition py_div (a b : Q) : res Q :=
  if Qeq_bool b 0 then Raise ZeroDivisionError else Ok (a / b).

(** [x or d] for a float [x]: [0.0] is falsy. *)
Definition py_or_float (x d : Q) : Q := if Qeq_bool x 0 then d else x.

(** [sum(...)] over floats, starting from [0]. *)
Definition py_sum (l : list Q) : Q := fold_left Qplus l 0.

(** ** Helper functions (color math) *)

(** [clamp(x, lo=0, hi=255) = max(lo, min(hi, int(x)))] *)
Definition clamp_lohi (x : Q) (lo hi : Z) : Z := Z.max lo (Z.min hi (py_int x)).
Definition clamp (x : Q) : Z := clamp_lohi x 0 255.

(** [clamp01(x) = max(0.0, min(1.0, float(x)))] *)
Definition clamp01 (x : Q) : Q := py_maxQ 0 (py_minQ 1 x).

(** [colorsys.hsv_to_rgb] of the Python standard library. *)
Definition hsv_to_rgb (h s v : Q) : Q * Q * Q :=
  if Qeq_bool s 0 then (v, v, v) else
  let i := py_int (h * 6) in
  let f := h * 6 - inject_Z i in
  let p := v * (1 - s) in
  let q := v * (1 - s * f) in
  let t := v * (1 - s * (1 - f)) in
  match Z.modulo i 6 with
  | 0%Z => (v, t, p)
  | 1%Z => (q, v, p)
  | 2%Z => (p, v, t)
  | 3%Z => (p, q, v)
  | 4%Z => (t, p, v)
  | _ => (v, p, q)
  end.

Definition rgb := (Z * Z * Z)%type.

(** [hue_to_rgb(h, s, v)] *)
Definition hue_to_rgb (h s v : Q) : rgb :=
  let '(r, g, b) := hsv_to_rgb (clamp01 h) (clamp01 s) (clamp01 v) in
  (py_int (r * 255), py_int (g * 255), py_int (b * 255)).

(** [mix_rgb(colors_with_weights)] *)
Definition mix_rgb (colors_with_weights : list (rgb * Q)) : res rgb :=
  let total := py_or_float (py_sum (map snd colors_with_weights)) 1 in
  let! r := py_div (py_sum (map (fun '((r, _, _), w) => inject_Z r * w)
                                colors_with_weights)) total in
  let! g := py_div (py_sum (map (fun '((_, g, _), w) => inject_Z g * w)
                                colors_with_weights)) total in
  let! b := py_div (py_sum (map (fun '((_, _, b), w) => inject_Z b * w)
                                colors_with_weights)) total in
  Ok (clamp r, clamp g, clamp b).

Example hue_to_rgb_red : hue_to_rgb 0 0.84 0.82 = (209, 33, 33)%Z.
Proof. reflexivity. Qed.

(** ** Strings *)

(** [str.lower] on ASCII characters. *)
Definition ascii_lower (c : ascii) : ascii :=
  let n := nat_of_ascii c in
  if (Nat.leb 65 n && Nat.leb n 90)%bool then ascii_of_nat (n + 32) else c.

Fixpoint str_lower (s : string) : string :=
  match s with
  | EmptyString => EmptyString
  | String c s' => String (ascii_lower c) (str_lower s')
  end.

(** [kw in text]: substring test. *)
Fixpoint str_contains (kw text : string) : bool :=
  prefix kw text ||
  match text with
  | EmptyString => false
  | String _ text' => str_contains kw text'
  end.

(** [" ".join(genres)] *)
Definition py_join (sep : string) (l : list string) : string := String.concat sep l.

(** ** Dicts with string keys, in insertion order *)

Definition dict (V : Type) := list (string * V).

(** [d[k]] *)
Fixpoint dict_get {V} (d : dict V) (k : string) : res V :=
  match d with
  | [] => Raise KeyError
  | (k', v) :: d' => if String.eqb k k' then Ok v else dict_get d' k
  end.

(** [d.get(k, default)] *)
Fixpoint dict_get_default {V} (d : dict V) (k : string) (default : V) : V :=
  match d with
  | [] => default
  | (k', v) :: d' => if String.eqb k k' then v else dict_get_default d' k default
  end.

(** [d[k] = v]: an existing key keeps its position, a new one is appended. *)
Fixpoint dict_set {V} (d : dict V) (k : string) (v : V) : dict V :=
  match d with
  | [] => [(k, v)]
  | (k', v') :: d' =>
      if String.eqb k k' then (k', v) :: d' else (k', v') :: dict_set d' k v
  end.

(** ** Genre to color buckets *)

Definition BUCKETS : list (string * Q) :=
  [ ("RED", 0.00); ("ORANGE", 0.08); ("YELLOW", 0.14); ("GREEN", 0.33);
    ("CYAN", 0.50); ("BLUE", 0.62); ("PURPLE", 0.78); ("PINK", 0.90) ]%string.

Definition GENRE_KEYWORDS : dict (list string) :=
  [ ("RED", ["rock"; "metal"; "punk"; "emo"]);
    ("ORANGE", ["latin"; "reggaeton"; "afrobeats"]);
    ("YELLOW", ["pop"; "k-pop"; "j-pop"]);
    ("GREEN", ["indie"; "folk"; "country"; "bluegrass"]);
    ("CYAN", ["edm"; "house"; "trance"]);
    ("BLUE", ["ambient"; "chill"; "lofi"]);
    ("PURPLE", ["hip hop"; "rap"; "r&b"]);
    ("PINK", ["jazz"; "classical"; "instrumental"]) ]%string.

Definition weights := dict Q.

(** [for kw in keywords: if kw in text: weights[bucket] += 1.0] *)
Fixpoint score_keywords (text bucket : string) (keywords : list string)
    (w : weights) : res weights :=
  match keywords with
  | [] => Ok w
  | kw :: keywords' =>
      let! w' :=
        if str_contains kw text
        then let! x := dict_get w bucket in Ok (dict_set w bucket (x + 1))
        else Ok w in
      score_keywords text bucket keywords' w'
  end.

(** [for bucket, keywords in GENRE_KEYWORDS.items(): ...] *)
Fixpoint score_table (text : string) (table : dict (list string))
    (w : weights) : res weights :=
  match table with
  | [] => Ok w
  | (bucket, keywords) :: table' =>
      let! w' := score_keywords text bucket keywords w in
      score_table text table' w'
  end.

(** [for k in weights: weights[k] /= total] *)
Fixpoint normalize (w : weights) (total : Q) : res weights :=
  match w with
  | [] => Ok []
  | (k, x) :: w' =>
      let! y := py_div x total in
      let! w'' := normalize w' total in
      Ok ((k, y) :: w'')
  end.

Definition weights_sum (w : weights) : Q := py_sum (map snd w).

(** The fallback, applied when no keyword matched. *)
Definition fallback (w : weights) : weights :=
  dict_set (dict_set (dict_set w "CYAN"%string 1.0) "GREEN"%string 0.7) "BLUE"%string 0.5.

(** The scoring of the search text [text]. *)
Definition score_text (text : string) : res weights :=
  let w0 := map (fun '(name, _) => (name, 0)) BUCKETS in
  let! w1 := score_table text GENRE_KEYWORDS w0 in
  let w2 := if Qeq_bool (weights_sum w1) 0 then fallback w1 else w1 in
  let total := py_or_float (weights_sum w2) 1 in
  normalize w2 total.

(** [score_buckets(genres)] *)
Definition score_buckets (genres : list string) : res weights :=
  score_text (str_lower (py_join " " genres)).

(** [bucket_base_rgb], first lines: the popularity and explicit modulation.
    [popularity] is a Python int or [None]. *)
Definition py_or_int (x : option Z) (d : Z) : Z :=
  match x with
  | None => d
  | Some 0%Z => d
  | Some n => n
  end.

Definition bucket_params (popularity : option Z) (explicit : bool) : Q * Q :=
  let pop := clamp01 (inject_Z (py_or_int popularity 50) / 100) in
  let saturation := clamp01 (0.6 + 0.3 * pop + (if explicit then 0.1 else 0.0)) in
  let brightness := clamp01 (0.5 + 0.4 * pop) in
  (saturation, brightness).

(** [for name, base_hue in BUCKETS: w = weights.get(name, 0); if w > 0: ...] *)
Definition bucket_colors (w : weights) (saturation brightness : Q)
    : list (rgb * Q) :=
  flat_map (fun '(name, base_hue) =>
              let x := dict_get_default w name 0 in
              if qltb 0 x then [(hue_to_rgb base_hue saturation brightness, x)]
              else [])
           BUCKETS.

(** [bucket_base_rgb(weights, temp_c, popularity, explicit)] *)
Definition bucket_base_rgb (w : weights) (temp_c : option Q)
    (popularity : option Z) (explicit : bool) : res rgb :=
  let '(saturation, brightness) := bucket_params popularity explicit in
  mix_rgb (bucket_colors w saturation brightness).

(** ** BPM color mode *)

(** [bpm_to_rgb(tempo, energy)] *)
Definition bpm_to_rgb (tempo energy : Q) : rgb :=
  let tempo := py_maxQ 60 (py_minQ 180 tempo) in
  let p := (tempo - 60) / 120 in
  (clamp (255 * p), clamp (255 * energy), clamp (255 * (1 - p))).

(** ** The Playback Provider (Spotify Web API through spotipy)

    A JSON object is a record whose fields are [None] when the key is absent;
    [obj.get(key)] reads the field.  The responses of the provider to one
    request are inputs of the route. *)

Record artist_obj := {
  artist_id : option string;
  artist_name : option string }.

Record item_obj := {
  item_id : option string;
  item_name : option string;
  item_artists : option (list artist_obj);
  item_popularity : option Z;
  item_explicit : option bool }.

(** An empty dict is falsy. *)
Definition item_truthy (i : item_obj) : bool :=
  match item_id i, item_name i, item_artists i, item_popularity i,
        item_explicit i with
  | None, None, None, None, None => false
  | _, _, _, _, _ => true
  end.

(** Outcome of [sp.current_playback()]: an exception, [None] (HTTP 204,
    nothing playing), or an object with or without an ["item"]. *)
Inductive playback :=
| PB_Raise (e : exn)
| PB_None
| PB_Obj (item : option item_obj).

(** Outcome of [sp.artist(artist_id)]. *)
Inductive artist_resp :=
| AR_Raise (e : exn)
| AR_Obj (genres : option (list string)).

(** ** Process state: the genre cache, and a log of the artist lookups sent
    to the provider. *)

Definition cache_key := option string.

Definition key_eqb (a b : cache_key) : bool :=
  match a, b with
  | None, None => true
  | Some x, Some y => String.eqb x y
  | _, _ => false
  end.

Definition genre_cache := list (cache_key * list string).

(** [artist_id in cache] and [cache[artist_id]] *)
Fixpoint cache_lookup (c : genre_cache) (k : cache_key) : option (list string) :=
  match c with
  | [] => None
  | (k', v) :: c' => if key_eqb k k' then Some v else cache_lookup c' k
  end.

(** [cache[artist_id] = genres] *)
Fixpoint cache_set (c : genre_cache) (k : cache_key) (v : list string)
    : genre_cache :=
  match c with
  | [] => [(k, v)]
  | (k', v') :: c' =>
      if key_eqb k k' then (k', v) :: c' else (k', v') :: cache_set c' k v
  end.

Record server_state := {
  _artist_genre_cache : genre_cache;
  artist_calls : list cache_key }.

(** ** State and exception monad: module state survives an exception. *)

Definition M (A : Type) := server_state -> res A * server_state.

Definition ret {A} (a : A) : M A := fun st => (Ok a, st).
Definition raise {A} (e : exn) : M A := fun st => (Raise e, st).
Definition lift {A} (r : res A) : M A := fun st => (r, st).
Definition mbind {A B} (m : M A) (k : A -> M B) : M B :=
  fun st => match m st with
            | (Ok a, st') => k a st'
            | (Raise e, st') => (Raise e, st')
            end.

Notation "'let*' x := m 'in' k" := (mbind m (fun x => k))
  (at level 200, x name, m at level 100, k at level 200).
Notation "'let*' ' p := m 'in' k" := (mbind m (fun x => match x with p => k end))
  (at level 200, p pattern, m at level 100, k at level 200).

(** Lines 183-187 of [safe_get_current_genres]: the cached artist lookup. *)
Definition get_genres (aid : cache_key) (ar : artist_resp) : M (list string) :=
  fun st =>
    match cache_lookup (_artist_genre_cache st) aid with
    | Some genres => (Ok genres, st)
    | None =>
        let st' := {| _artist_genre_cache := _artist_genre_cache st;
                      artist_calls := artist_calls st ++ [aid] |} in
        match ar with
        | AR_Raise e => (Raise e, st')
        | AR_Obj g =>
            let genres := match g with Some l => l | None => [] end in
            (Ok genres,
             {| _artist_genre_cache := cache_set (_artist_genre_cache st') aid genres;
                artist_calls := artist_calls st' |})
        end
    end.

(** (track_name, artist_name, genres, popularity, explicit, track_id) *)
Definition track_tuple :=
  (option string * option string * list string * Z * bool * option string)%type.

Definition default_tuple : track_tuple :=
  (Some "No Song"%string, Some "Unknown"%string, [], 50%Z, false, None).

(** [safe_get_current_genres()], with [sp.current_playback()] answering [pb]
    and [sp.artist(artist_id)] answering [ar]. *)
Definition safe_get_current_genres (pb : playback) (ar : artist_resp)
    : M track_tuple :=
  match pb with
  | PB_Raise e => raise e
  | PB_None | PB_Obj None => ret default_tuple
  | PB_Obj (Some item) =>
      if negb (item_truthy item) then ret default_tuple else
      let track_id := item_id item in
      match item_artists item with
      | None => raise KeyError
      | Some [] => raise IndexError
      | Some (artist :: _) =>
          let aid := artist_id artist in
          let* genres := get_genres aid ar in
          ret (item_name item, artist_name artist, genres,
               match item_popularity item with Some p => p | None => 50%Z end,
               match item_explicit item with Some b => b | None => false end,
               track_id)
      end
  end.

(** ** The [/update_context] route *)

(** [str.upper] on ASCII characters. *)
Definition ascii_upper (c : ascii) : ascii :=
  let n := nat_of_ascii c in
  if (Nat.leb 97 n && Nat.leb n 122)%bool then ascii_of_nat (n - 32) else c.

Fixpoint str_upper (s : string) : string :=
  match s with
  | EmptyString => EmptyString
  | String c s' => String (ascii_upper c) (str_upper s')
  end.

(** [s[:n]]; slicing [None] raises [TypeError]. *)
Definition py_slice (s : option string) (n : nat) : res string :=
  match s with
  | None => Raise TypeError
  | Some s => Ok (substring 0 n s)
  end.

(** The JSON body of a successful response. *)
Record context_json := {
  song : string;
  artist : string;
  r : Z;
  g : Z;
  b : Z;
  genres : list string;
  popularity : Z;
  explicit : bool }.

(** Flask turns an exception escaping the view into HTTP 500. *)
Inductive http_response :=
| HTTP200 (body : context_json)
| HTTP500 (e : exn).

(** The route body, with [request.args] giving [temp] and [mode_arg]. *)
Definition update_context_body (temp : option Q) (mode_arg : option string)
    (pb : playback) (ar : artist_resp) : M context_json :=
  let mode := str_upper (match mode_arg with
                         | Some m => if String.eqb m "" then "TEMP" else m
                         | None => "TEMP" end)%string in
  let* '(track, artist, genres, popularity, explicit, track_id) :=
    safe_get_current_genres pb ar in
  let* weights := lift (score_buckets genres) in
  let* '(r, g, b) := lift (bucket_base_rgb weights temp (Some popularity) explicit) in
  let* song := lift (py_slice track 15) in
  let* artist := lift (py_slice artist 15) in
  ret {| song := song; artist := artist; r := r; g := g; b := b;
         genres := firstn 3 genres; popularity := popularity;
         explicit := explicit |}.

(** [update_context()] as served by Flask. *)
Definition update_context (temp : option Q) (mode_arg : option string)
    (pb : playback) (ar : artist_resp) (st : server_state)
    : http_response * server_state :=
  match update_context_body temp mode_arg pb ar st with
  | (Ok body, st') => (HTTP200 body, st')
  | (Raise e, st') => (HTTP500 e, st')
  end.

(** One request to the route, with the provider's answers to it. *)
Record request := {
  req_temp : option Q;
  req_mode : option string;
  req_playback : playback;
  req_artist : artist_resp }.

(** The server processing a sequence of requests. *)
Fixpoint serve (reqs : list request) (st : server_state) : server_state :=
  match reqs with
  | [] => st
  | rq :: reqs' =>
      serve reqs' (snd (update_context (req_temp rq) (req_mode rq)
                                       (req_playback rq) (req_artist rq) st))
  end.

Definition empty_state : server_state :=
  {| _artist_genre_cache := []; artist_calls := [] |}.

(** ** Auxiliary definitions used in the statements *)

(** Some keyword of [GENRE_KEYWORDS] occurs in the search text. *)
Definition keyword_hits (text : string) : bool :=
  existsb (fun '(_, kws) => existsb (fun kw => str_contains kw text) kws)
          GENRE_KEYWORDS.

(** Two weight dicts have the same keys in the same order and equal values. *)
Fixpoint weights_eqb (w1 w2 : weights) : bool :=
  match w1, w2 with
  | [], [] => true
  | (k1, x1) :: w1', (k2, x2) :: w2' =>
      String.eqb k1 k2 && Qeq_bool x1 x2 && weights_eqb w1' w2'
  | _, _ => false
  end.

(** The fallback distribution CYAN=1.0, GREEN=0.7, BLUE=0.5, normalized. *)
Definition fallback_distribution : weights :=
  [ ("RED", 0); ("ORANGE", 0); ("YELLOW", 0); ("GREEN", 0.7 / 2.2);
    ("CYAN", 1.0 / 2.2); ("BLUE", 0.5 / 2.2); ("PURPLE", 0); ("PINK", 0) ]%string.

(** All weight on RED. *)
Definition red_only : weights :=
  [ ("RED", 1); ("ORANGE", 0); ("YELLOW", 0); ("GREEN", 0);
    ("CYAN", 0); ("BLUE", 0); ("PURPLE", 0); ("PINK", 0) ]%string.

(** A channel value of an RGB triple. *)
Definition channel_ok (c : Z) : Prop := (0 <= c <= 255)%Z.

Definition rgb_ok (c : rgb) : Prop :=
  let '(r, g, b) := c in channel_ok r /\ channel_ok g /\ channel_ok b.

Definition nonneg (w : weights) : Prop := Forall (fun kv => 0 <= snd kv) w.

Definition divide_all (w : weights) (t : Q) : weights :=
  map (fun '(k, x) => (k, x / t)) w.

Definition bucket_names : list string := map fst BUCKETS.

Definition is_distribution (w : weights) : Prop :=
  map fst w = bucket_names /\
  Forall (fun kv => 0 <= snd kv <= 1) w /\
  weights_sum w == 1.

Definition preserves {A} (m : M A) : Prop := forall st, snd (m st) = st.

(** The default context and its color, as computed for the empty genre list. *)
Definition default_json : context_json :=
  {| song := "No Song"; artist := "Unknown"; r := 44; g := 156; b := 135;
     genres := []; popularity := 50; explicit := false |}%string.

Definition witness_state : server_state :=
  {| _artist_genre_cache := [(Some "B2"%string, ["jazz"%string])];
     artist_calls := [Some "B2"%string] |}.

Definition witness_requests : list request :=
  [ {| req_temp := Some 21; req_mode := None; req_playback := PB_None;
       req_artist := AR_Obj None |};
    {| req_temp := None; req_mode := Some "BPM"%string;
       req_playback := PB_Raise ConnectionError;
       req_artist := AR_Raise SpotifyException |} ].

(** ** Playback control routes: [/volume] and [/playpause]

    These routes read other fields of [sp.current_playback()]: the
    ["is_playing"] flag and the ["device"] object.  A device object always
    carries its keys (id, name, ...), so it is truthy; its
    ["volume_percent"] is [None] when the API sends [null]. *)

Record device_obj := {
  volume_percent : option Z }.

Record playback_state := {
  is_playing : option bool;
  device : option device_obj }.

(** Outcome of [sp.current_playback()] as seen by the control routes. *)
Inductive control_playback :=
| CP_Raise (e : exn)
| CP_None
| CP_Obj (s : playback_state).

(** Playback commands sent to the provider. *)
Inductive command :=
| Pause
| Start
| Next
| Previous
| SetVolume (v : Z).

Inductive control_json :=
| JAction (action : string)
| JVolume (volume : Z).

(** [jsonify(...)], [jsonify(error=...), 400], or an exception (HTTP 500). *)
Inductive control_response :=
| CR200 (body : control_json)
| CR400 (error : string)
| CR500 (e : exn).

(** Sending [c] to the provider, which answers [outcome] ([None]: success),
    then answering [body]. *)
Definition send (c : command) (outcome : option exn) (body : control_json)
    : control_response * list command :=
  match outcome with
  | Some e => (CR500 e, [c])
  | None => (CR200 body, [c])
  end.

(** [play_pause()] *)
Definition play_pause (pb : control_playback) (outcome : option exn)
    : control_response * list command :=
  match pb with
  | CP_Raise e => (CR500 e, [])
  | CP_None => send Start outcome (JAction "playing")
  | CP_Obj s =>
      match is_playing s with
      | Some true => send Pause outcome (JAction "paused")
      | _ => send Start outcome (JAction "playing")
      end
  end.

(** [volume()], with [request.args.get("set", type=int)] giving [set_v] and
    [request.args.get("delta", type=int)] giving [delta]. *)
Definition volume (pb : control_playback) (set_v delta : option Z)
    (outcome : option exn) : control_response * list command :=
  match pb with
  | CP_Raise e => (CR500 e, [])
  | CP_None => (CR400 "No active device", [])
  | CP_Obj s =>
      match device s with
      | None => (CR400 "No active device", [])
      | Some d =>
          let cur_vol := volume_percent d in
          match set_v, delta with
          | Some v, _ =>
              let new_vol := clamp_lohi (inject_Z v) 0 100 in
              send (SetVolume new_vol) outcome (JVolume new_vol)
          | None, Some dl =>
              match cur_vol with
              | None => (CR500 TypeError, [])   (** [None + int] *)
              | Some cv =>
                  let new_vol := clamp_lohi (inject_Z (cv + dl)) 0 100 in
                  send (SetVolume new_vol) outcome (JVolume new_vol)
              end
          | None, None => (CR400 "Missing parameters", [])
          end
      end
  end.

(** ** Further auxiliary definitions *)

(** A float in [0,1]. *)
Definition unit_interval (x : Q) : Prop := 0 <= x <= 1.

(** The number of keywords of [kws] that occur in [text]. *)
Definition hit_count (text : string) (kws : list string) : Z :=
  Z.of_nat (length (filter (fun kw => str_contains kw text) kws)).

(** The keyword counts of all buckets, in table order. *)
Definition bucket_hits (text : string) : weights :=
  map (fun '(b, kws) => (b, inject_Z (hit_count text kws))) GENRE_KEYWORDS.

(** The total number of keyword matches over all buckets. *)
Definition total_hits (text : string) : Z :=
  fold_right Z.add 0%Z (map (fun '(_, kws) => hit_count text kws) GENRE_KEYWORDS).

(** The state after a cache miss on [aid] at which the provider answered. *)
Definition after_miss (st : server_state) (aid : cache_key) : server_state :=
  {| _artist_genre_cache := _artist_genre_cache st;
     artist_calls := artist_calls st ++ [aid] |}.

(** A playing track by an artist whose genres are cached in [witness_state]. *)
Definition witness_item : item_obj :=
  {| item_id := Some "T1"; item_name := Some "So What";
     item_artists := Some [ {| artist_id := Some "B2"; artist_name := Some "Miles Davis" |} ];
     item_popularity := Some 70%Z; item_explicit := Some false |}%string.

(** A track object whose ["artists"] list is empty. *)
Definition item_no_artists : item_obj :=
  {| item_id := Some "T2"; item_name := Some "Untitled"; item_artists := Some [];
     item_popularity := None; item_explicit := None |}%string.

(** A track object without a ["name"]. *)
Definition item_no_name : item_obj :=
  {| item_id := Some "T3"; item_name := None;
     item_artists := Some [ {| artist_id := Some "A9"; artist_name := None |} ];
     item_popularity := Some 10%Z; item_explicit := Some true |}%string.

(** Requests that all play [witness_item]; the provider fails every lookup. *)
Definition cached_requests : list request :=
  [ {| req_temp := None; req_mode := None; req_playback := PB_Obj (Some witness_item);
       req_artist := AR_Raise ConnectionError |};
    {| req_temp := Some 18; req_mode := None; req_playback := PB_Obj (Some witness_item);
       req_artist := AR_Raise SpotifyException |} ].

(** The first action sent by [/playpause], as named in its answer. *)
Definition action_name (c : command) : string :=
  match c with
  | Pause => "paused"
  | _ => "playing"
  end.

(** A paused player whose device reports no volume, and a playing one at 95. *)
Definition silent_device : device_obj := {| volume_percent := None |}.

Definition paused_state : playback_state :=
  {| is_playing := Some false; device := Some silent_device |}.

Definition loud_state : playback_state :=
  {| is_playing := Some true; device := Some {| volume_percent := Some 95%Z |} |}.

(** * Lemmas *)

Lemma fold_left_Qplus_acc (l : list Q) (a : Q) :
  fold_left Qplus l a == a + py_sum l.
Proof.
  revert a; induction l as [|x l IH]; intro a; unfold py_sum; simpl.
  - ring.
  - rewrite (IH (a + x)), (IH (0 + x)). ring.
Qed.


Lemma py_sum_cons (x : Q) (l : list Q) : py_sum (x :: l) == x + py_sum l.
Proof. unfold py_sum at 1; simpl. rewrite fold_left_Qplus_acc. ring. Qed.

Lemma py_div_ok (a t : Q) : ~ t == 0 -> py_div a t = Ok (a / t).
Proof.
  intro H. unfold py_div. destruct (Qeq_bool t 0) eqn:E; [|reflexivity].
  apply Qeq_bool_eq in E. contradiction.
Qed.

Lemma py_or_float_nonzero (x : Q) : ~ py_or_float x 1 == 0.
Proof.
  unfold py_or_float. destruct (Qeq_bool x 0) eqn:E.
  - discriminate.
  - intro H. apply Qeq_bool_neq in E. contradiction.
Qed.

Lemma clamp_bounds (x : Q) : channel_ok (clamp x).
Proof. unfold channel_ok, clamp, clamp_lohi. lia. Qed.

(** ** Dict lemmas *)

Lemma dict_get_in (w : weights) (k : string) :
  In k (map fst w) -> exists x, dict_get w k = Ok x /\ In (k, x) w.
Proof.
  induction w as [|[k' v] w IH]; simpl; [tauto|].
  intro Hin. destruct (String.eqb k k') eqn:E.
  - apply String.eqb_eq in E. subst k'. exists v. auto.
  - destruct Hin as [Heq | Hin].
    + subst k'. rewrite String.eqb_refl in E. discriminate.
    + destruct (IH Hin) as [x [Hx Hi]]. exists x. auto.
Qed.

Lemma dict_set_keys (w : weights) (k : string) (v : Q) :
  In k (map fst w) -> map fst (dict_set w k v) = map fst w.
Proof.
  induction w as [|[k' v'] w IH]; simpl; [tauto|].
  intro Hin. destruct (String.eqb k k') eqn:E; simpl; [reflexivity|].
  destruct Hin as [Heq | Hin].
  - subst k'. rewrite String.eqb_refl in E. discriminate.
  - rewrite (IH Hin). reflexivity.
Qed.

Lemma dict_set_nonneg (w : weights) (k : string) (v : Q) :
  nonneg w -> 0 <= v -> nonneg (dict_set w k v).
Proof.
  unfold nonneg. induction w as [|[k' v'] w IH]; simpl; intros Hw Hv.
  - constructor; auto.
  - inversion Hw; subst. destruct (String.eqb k k'); constructor; auto.
Qed.

Lemma dict_set_in (w : weights) (k : string) (v : Q) :
  In k (map fst w) -> In (k, v) (dict_set w k v).
Proof.
  induction w as [|[k' v'] w IH]; simpl; [tauto|].
  intro Hin. destruct (String.eqb k k') eqn:E.
  - apply String.eqb_eq in E. subst k'. left. reflexivity.
  - right. destruct Hin as [Heq | Hin].
    + subst k'. rewrite String.eqb_refl in E. discriminate.
    + auto.
Qed.

(** ** Classifier lemmas *)

Lemma score_keywords_ok (text bucket : string) (kws : list string) :
  forall w, In bucket (map fst w) -> nonneg w ->
  exists w', score_keywords text bucket kws w = Ok w' /\
             map fst w' = map fst w /\ nonneg w'.
Proof.
  induction kws as [|kw kws IH]; intros w Hin Hw; simpl.
  - exists w. auto.
  - destruct (str_contains kw text).
    + destruct (dict_get_in w bucket Hin) as [x [Hx Hxin]]. rewrite Hx. simpl.
      assert (Hx0 : 0 <= x).
      { unfold nonneg in Hw. rewrite Forall_forall in Hw. apply (Hw _ Hxin). }
      assert (Hk : map fst (dict_set w bucket (x + 1)) = map fst w)
        by (apply dict_set_keys; exact Hin).
      destruct (IH (dict_set w bucket (x + 1))) as [w' [H1 [H2 H3]]].
      * rewrite Hk. exact Hin.
      * apply dict_set_nonneg; [exact Hw|].
        apply (Qle_trans _ x); [exact Hx0|].
        rewrite <- (Qplus_0_r x) at 1. apply Qplus_le_r. discriminate.
      * exists w'. rewrite H2, Hk. auto.
    + simpl. apply IH; assumption.
Qed.

Lemma score_table_ok (text : string) (table : dict (list string)) :
  forall w, Forall (fun e => In (fst e) (map fst w)) table -> nonneg w ->
  exists w', score_table text table w = Ok w' /\
             map fst w' = map fst w /\ nonneg w'.
Proof.
  induction table as [|[bucket kws] table IH]; intros w Ht Hw; simpl.
  - exists w. auto.
  - inversion Ht as [|? ? Hb Ht']; subst. simpl in Hb.
    destruct (score_keywords_ok text bucket kws w Hb Hw) as [w1 [H1 [H2 H3]]].
    rewrite H1. simpl.
    destruct (IH w1) as [w2 [H4 [H5 H6]]].
    + rewrite H2. exact Ht'.
    + exact H3.
    + exists w2. rewrite H5, H2. auto.
Qed.

Lemma score_table_no_hit (text : string) (table : dict (list string)) :
  forall w,
  existsb (fun '(_, kws) => existsb (fun kw => str_contains kw text) kws) table
    = false ->
  score_table text table w = Ok w.
Proof.
  induction table as [|[bucket kws] table IH]; intros w H; simpl in *; [reflexivity|].
  apply orb_false_iff in H as [Hk Ht].
  assert (Hkw : score_keywords text bucket kws w = Ok w).
  { clear IH Ht. induction kws as [|kw kws IHk]; simpl in *; [reflexivity|].
    apply orb_false_iff in Hk as [H1 H2]. rewrite H1. simpl. auto. }
  rewrite Hkw. simpl. auto.
Qed.

Lemma weights_sum_cons (k : string) (x : Q) (w : weights) :
  weights_sum ((k, x) :: w) == x + weights_sum w.
Proof. unfold weights_sum. simpl map. apply py_sum_cons. Qed.

Lemma weights_sum_nonneg (w : weights) : nonneg w -> 0 <= weights_sum w.
Proof.
  induction w as [|[k x] w IH]; intro Hw; [apply Qle_refl|].
  inversion Hw; subst. rewrite weights_sum_cons.
  apply (Qplus_le_compat 0 x 0 (weights_sum w)); auto.
Qed.

Lemma in_le_weights_sum (w : weights) (k : string) (x : Q) :
  nonneg w -> In (k, x) w -> x <= weights_sum w.
Proof.
  induction w as [|[k' x'] w IH]; intros Hw Hin; [destruct Hin|].
  inversion Hw; subst. rewrite weights_sum_cons. simpl in *.
  destruct Hin as [Heq | Hin].
  - inversion Heq; subst. rewrite <- (Qplus_0_r x) at 1.
    apply Qplus_le_r. apply weights_sum_nonneg. assumption.
  - rewrite <- (Qplus_0_l x) at 1. apply Qplus_le_compat; auto.
Qed.

Lemma normalize_ok (w : weights) (t : Q) :
  ~ t == 0 -> normalize w t = Ok (divide_all w t).
Proof.
  intro Ht. induction w as [|[k x] w IH]; simpl; [reflexivity|].
  rewrite (py_div_ok x t Ht). simpl. rewrite IH. reflexivity.
Qed.

Lemma divide_all_keys (w : weights) (t : Q) :
  map fst (divide_all w t) = map fst w.
Proof. induction w as [|[k x] w IH]; simpl; congruence. Qed.

Lemma divide_all_sum (w : weights) (t : Q) :
  weights_sum (divide_all w t) == weights_sum w / t.
Proof.
  induction w as [|[k x] w IH]; simpl.
  - unfold Qdiv. reflexivity.
  - rewrite !weights_sum_cons, IH. unfold Qdiv. ring.
Qed.

Lemma divide_all_unit (w : weights) (t : Q) :
  nonneg w -> 0 < t -> weights_sum w <= t ->
  Forall (fun kv => 0 <= snd kv <= 1) (divide_all w t).
Proof.
  intros Hw Ht Hs. unfold divide_all. apply Forall_map.
  apply Forall_forall. intros [k x] Hin. simpl.
  assert (Hx : 0 <= x).
  { unfold nonneg in Hw. rewrite Forall_forall in Hw. apply (Hw _ Hin). }
  pose proof (in_le_weights_sum w k x Hw Hin) as Hle. split.
  - apply Qle_shift_div_l; [exact Ht|]. rewrite Qmult_0_l. exact Hx.
  - apply Qle_shift_div_r; [exact Ht|]. rewrite Qmult_1_l.
    apply (Qle_trans _ _ _ Hle Hs).
Qed.

Lemma normalize_distribution (w : weights) :
  map fst w = bucket_names -> nonneg w -> 0 < weights_sum w ->
  exists w', normalize w (py_or_float (weights_sum w) 1) = Ok w' /\
             is_distribution w'.
Proof.
  intros Hk Hw Hpos.
  assert (Hnz : ~ weights_sum w == 0).
  { intro H. rewrite H in Hpos. discriminate. }
  assert (Ht : py_or_float (weights_sum w) 1 = weights_sum w).
  { unfold py_or_float. destruct (Qeq_bool (weights_sum w) 0) eqn:E; [|reflexivity].
    apply Qeq_bool_eq in E. contradiction. }
  rewrite Ht, (normalize_ok w _ Hnz).
  exists (divide_all w (weights_sum w)). split; [reflexivity|].
  split; [|split].
  - rewrite divide_all_keys. exact Hk.
  - apply divide_all_unit; auto. apply Qle_refl.
  - rewrite divide_all_sum. field. exact Hnz.
Qed.

Lemma initial_weights_keys :
  map fst (map (fun '(name, _) => (name, 0)) BUCKETS) = bucket_names.
Proof. reflexivity. Qed.

Lemma initial_weights_nonneg : nonneg (map (fun '(name, _) => (name, 0)) BUCKETS).
Proof.
  unfold nonneg. simpl.
  repeat (apply Forall_cons; [apply Qle_refl|]). apply Forall_nil.
Qed.

Lemma keywords_buckets_known :
  Forall (fun e => In (fst e) bucket_names) GENRE_KEYWORDS.
Proof.
  unfold GENRE_KEYWORDS, bucket_names. simpl.
  repeat (apply Forall_cons; [simpl; tauto|]). apply Forall_nil.
Qed.

Lemma score_text_distribution (text : string) :
  exists w, score_text text = Ok w /\ is_distribution w.
Proof.
  unfold score_text.
  destruct (score_table_ok text GENRE_KEYWORDS
              (map (fun '(name, _) => (name, 0)) BUCKETS))
    as [w1 [H1 [H2 H3]]].
  { rewrite initial_weights_keys. exact keywords_buckets_known. }
  { exact initial_weights_nonneg. }
  rewrite H1. simpl res_bind. rewrite initial_weights_keys in H2.
  destruct (Qeq_bool (weights_sum w1) 0) eqn:E.
  - assert (Hc : In "CYAN"%string (map fst w1)) by (rewrite H2; simpl; tauto).
    assert (Hg : In "GREEN"%string (map fst w1)) by (rewrite H2; simpl; tauto).
    assert (Hb : In "BLUE"%string (map fst w1)) by (rewrite H2; simpl; tauto).
    assert (Hkc := dict_set_keys w1 "CYAN" 1.0 Hc).
    set (w1c := dict_set w1 "CYAN" 1.0) in *.
    assert (Hkg := dict_set_keys w1c "GREEN" 0.7 ltac:(rewrite Hkc; exact Hg)).
    set (w1g := dict_set w1c "GREEN" 0.7) in *.
    assert (Hkb := dict_set_keys w1g "BLUE" 0.5 ltac:(rewrite Hkg, Hkc; exact Hb)).
    assert (Hnn : nonneg (fallback w1)).
    { unfold fallback. fold w1c w1g.
      apply dict_set_nonneg; [apply dict_set_nonneg; [apply dict_set_nonneg|]|];
        auto; unfold Qle; simpl; lia. }
    apply normalize_distribution; auto.
    + unfold fallback. fold w1c w1g. rewrite Hkb, Hkg, Hkc. exact H2.
    + assert (Hin : In ("BLUE"%string, 0.5) (fallback w1)).
      { unfold fallback. fold w1c w1g. apply dict_set_in.
        rewrite Hkg, Hkc. exact Hb. }
      apply (Qlt_le_trans _ 0.5); [reflexivity|].
      exact (in_le_weights_sum _ _ _ Hnn Hin).
  - apply normalize_distribution; auto.
    destruct (Qle_lt_or_eq _ _ (weights_sum_nonneg w1 H3)) as [Hlt | Heq];
      [exact Hlt|].
    apply Qeq_bool_neq in E. exfalso. apply E. symmetry. exact Heq.
Qed.

(** ** Cache and state lemmas *)

Lemma key_eqb_eq (a b : cache_key) : key_eqb a b = true <-> a = b.
Proof.
  destruct a as [x|], b as [y|]; simpl; split; intro H; try discriminate;
    try reflexivity.
  - apply String.eqb_eq in H. congruence.
  - inversion H. apply String.eqb_refl.
Qed.

Lemma cache_set_other (c : genre_cache) (k a : cache_key) (v w : list string) :
  cache_lookup c k = Some v -> cache_lookup c a = None ->
  cache_lookup (cache_set c a w) k = Some v.
Proof.
  induction c as [|[k' v'] c IH]; simpl; [discriminate|].
  intros Hk Ha. destruct (key_eqb a k') eqn:Ea; [discriminate|]. simpl.
  destruct (key_eqb k k'); auto.
Qed.

Lemma cache_set_same (c : genre_cache) (a : cache_key) (w : list string) :
  cache_lookup c a = None -> cache_lookup (cache_set c a w) a = Some w.
Proof.
  induction c as [|[k' v'] c IH]; simpl; intro Ha.
  - replace (key_eqb a a) with true; [reflexivity|].
    symmetry. apply key_eqb_eq. reflexivity.
  - destruct (key_eqb a k') eqn:Ea; [discriminate|]. simpl.
    rewrite Ea. auto.
Qed.

Lemma get_genres_keeps (aid k : cache_key) (ar : artist_resp)
    (st : server_state) (v : list string) :
  cache_lookup (_artist_genre_cache st) k = Some v ->
  cache_lookup (_artist_genre_cache (snd (get_genres aid ar st))) k = Some v.
Proof.
  intro Hk. unfold get_genres.
  destruct (cache_lookup (_artist_genre_cache st) aid) eqn:Ea; [exact Hk|].
  destruct ar as [e|gs]; simpl; [exact Hk|].
  apply cache_set_other; assumption.
Qed.

Lemma ret_preserves {A} (a : A) : preserves (ret a).
Proof. intro st. reflexivity. Qed.

Lemma lift_preserves {A} (x : res A) : preserves (lift x).
Proof. intro st. reflexivity. Qed.

Lemma mbind_snd {A B} (m : M A) (k : A -> M B) (st : server_state) :
  (forall a, preserves (k a)) -> snd (mbind m k st) = snd (m st).
Proof.
  intro Hk. unfold mbind. destruct (m st) as [[a|e] st']; simpl; [apply Hk|reflexivity].
Qed.

Lemma mbind_preserves {A B} (m : M A) (k : A -> M B) :
  preserves m -> (forall a, preserves (k a)) -> preserves (mbind m k).
Proof. intros Hm Hk st. rewrite mbind_snd by exact Hk. apply Hm. Qed.

Create HintDb preserves.
Local Hint Resolve ret_preserves lift_preserves mbind_preserves : preserves.

Lemma safe_get_current_genres_state (pb : playback) (ar : artist_resp)
    (st : server_state) :
  snd (safe_get_current_genres pb ar st) = st \/
  exists aid, snd (safe_get_current_genres pb ar st) = snd (get_genres aid ar st).
Proof.
  unfold safe_get_current_genres.
  destruct pb as [e| |[item|]]; try (left; reflexivity).
  destruct (negb (item_truthy item)); [left; reflexivity|].
  destruct (item_artists item) as [[|a l]|]; try (left; reflexivity).
  right. exists (artist_id a). apply mbind_snd. intro. apply ret_preserves.
Qed.

Lemma update_context_state (temp : option Q) (mode : option string)
    (pb : playback) (ar : artist_resp) (st : server_state) :
  snd (update_context temp mode pb ar st) = st \/
  exists aid, snd (update_context temp mode pb ar st) = snd (get_genres aid ar st).
Proof.
  assert (Hs : snd (update_context temp mode pb ar st) =
               snd (safe_get_current_genres pb ar st)).
  { unfold update_context.
    transitivity (snd (update_context_body temp mode pb ar st)).
    - destruct (update_context_body temp mode pb ar st) as [[a|e] st']; reflexivity.
    - unfold update_context_body. apply mbind_snd.
      intros [[[[[tr ar'] gs] pop] ex] tid].
      apply mbind_preserves; [apply lift_preserves|]. intro w.
      apply mbind_preserves; [apply lift_preserves|]. intros [[r0 g0] b0].
      eauto 10 with preserves. }
  rewrite Hs. apply safe_get_current_genres_state.
Qed.

Lemma serve_keeps (reqs : list request) (st : server_state) (k : cache_key)
    (v : list string) :
  cache_lookup (_artist_genre_cache st) k = Some v ->
  cache_lookup (_artist_genre_cache (serve reqs st)) k = Some v.
Proof.
  revert st. induction reqs as [|rq reqs IH]; intros st Hk; simpl; [exact Hk|].
  apply IH.
  destruct (update_context_state (req_temp rq) (req_mode rq) (req_playback rq)
              (req_artist rq) st) as [-> | [aid ->]]; [exact Hk|].
  apply get_genres_keeps. exact Hk.
Qed.

(** ** Python's [min]/[max] on floats agree with [Qmin]/[Qmax] *)

Lemma qltb_true_iff (a b : Q) : qltb a b = true <-> a < b.
Proof.
  unfold qltb. rewrite negb_true_iff. split; intro H.
  - apply Qnot_le_lt. intro Hle. apply Qle_bool_iff in Hle. congruence.
  - destruct (Qle_bool b a) eqn:E; [|reflexivity].
    apply Qle_bool_iff in E. exfalso. exact (Qlt_not_le _ _ H E).
Qed.

Lemma py_minQ_Qmin (a b : Q) : py_minQ a b = Qmin a b.
Proof.
  unfold py_minQ, Qmin, GenericMinMax.gmin.
  destruct (qltb b a) eqn:E; destruct (a ?= b) eqn:C; try reflexivity.
  - apply qltb_true_iff in E. apply Qeq_alt in C. rewrite C in E.
    destruct (Qlt_irrefl _ E).
  - apply qltb_true_iff in E. apply Qlt_alt in C.
    destruct (Qlt_irrefl a (Qlt_trans _ _ _ C E)).
  - apply Qgt_alt in C. apply (proj2 (qltb_true_iff b a)) in C. congruence.
Qed.

Lemma py_maxQ_Qmax (a b : Q) : py_maxQ a b = Qmax a b.
Proof.
  unfold py_maxQ, Qmax, GenericMinMax.gmax.
  destruct (qltb a b) eqn:E; destruct (a ?= b) eqn:C; try reflexivity.
  - apply qltb_true_iff in E. apply Qeq_alt in C. rewrite C in E.
    destruct (Qlt_irrefl _ E).
  - apply qltb_true_iff in E. apply Qgt_alt in C.
    destruct (Qlt_irrefl a (Qlt_trans _ _ _ E C)).
  - apply Qlt_alt in C. apply (proj2 (qltb_true_iff a b)) in C. congruence.
Qed.

(** * Claims *)

(** C1: a provider failure is not recovered: when [sp.current_playback()]
    raises (network or authentication failure, or a non-success status, which
    spotipy turns into [SpotifyException]), the exception escapes
    [safe_get_current_genres] and [update_context] and Flask answers HTTP 500.
    Only the nothing-playing case gets the default context and its color. *)
Theorem update_context_provider_failure :
  (forall temp mode e ar st,
     fst (update_context temp mode (PB_Raise e) ar st) = HTTP500 e) /\
  (forall temp mode ar st,
     fst (update_context temp mode PB_None ar st) = HTTP200 default_json).
Proof.
  split; intros; vm_compute; reflexivity.
Qed.

(** C2: the [mode] argument is read but never consulted: for every mode
    (including ["BPM"]) the route answers exactly what it answers without a
    mode, i.e. the genre classifier / synthesizer color; [bpm_to_rgb] is
    never called. *)
Theorem update_context_ignores_mode :
  (forall temp m pb ar st,
     update_context temp (Some m) pb ar st = update_context temp None pb ar st) /\
  fst (update_context None (Some "BPM"%string) PB_None (AR_Obj None) empty_state)
    = HTTP200 default_json.
Proof.
  split.
  - intros. reflexivity.
  - vm_compute. reflexivity.
Qed.

(** C3: [bucket_base_rgb] substitutes 50 for a present popularity of 0
    ([popularity or 50]), so popularity 0 with explicit=false gives
    saturation 0.75 and brightness 0.7, as for an absent popularity,
    instead of 0.6 and 0.5. *)
Theorem bucket_params_popularity_zero :
  bucket_params (Some 0%Z) false = bucket_params None false /\
  fst (bucket_params (Some 0%Z) false) == 0.75 /\
  snd (bucket_params (Some 0%Z) false) == 0.7.
Proof.
  split; [reflexivity|split; reflexivity].
Qed.

(** C4: for every list of genre strings, [score_buckets] raises no exception
    and returns weights over the eight buckets, each in [0,1], summing to 1. *)
Theorem score_buckets_distribution (genres : list string) :
  exists w, score_buckets genres = Ok w /\
            map fst w = bucket_names /\
            Forall (fun kv => 0 <= snd kv <= 1) w /\
            weights_sum w == 1.
Proof.
  exact (score_text_distribution (str_lower (py_join " " genres))).
Qed.

(** C5: when no keyword occurs in the search text (for instance for the empty
    genre list), [score_buckets] returns the fallback distribution
    CYAN = 1.0/2.2, GREEN = 0.7/2.2, BLUE = 0.5/2.2 and 0 elsewhere. *)
Theorem score_buckets_fallback (genres : list string) :
  keyword_hits (str_lower (py_join " " genres)) = false ->
  exists w, score_buckets genres = Ok w /\
            weights_eqb w fallback_distribution = true.
Proof.
  intro H. unfold keyword_hits in H. unfold score_buckets, score_text.
  cbv zeta. rewrite (score_table_no_hit _ _ _ H).
  eexists. split; [reflexivity|]. vm_compute. reflexivity.
Qed.

(** C6: end-to-end scenario 1: ["classic rock"; "metal"] puts all weight on
    RED; popularity 80, explicit=false gives saturation 0.84 and brightness
    0.82, and the color (209, 33, 33). *)
Theorem classic_rock_metal_scenario :
  exists w, score_buckets ["classic rock"; "metal"]%string = Ok w /\
            weights_eqb w red_only = true /\
            fst (bucket_params (Some 80%Z) false) == 0.84 /\
            snd (bucket_params (Some 80%Z) false) == 0.82 /\
            forall temp, bucket_base_rgb w temp (Some 80%Z) false = Ok (209, 33, 33)%Z.
Proof.
  eexists. split; [vm_compute; reflexivity|].
  split; [vm_compute; reflexivity|].
  split; [reflexivity|]. split; [reflexivity|].
  intro temp. vm_compute. reflexivity.
Qed.

(** C7: [bpm_to_rgb] clamps the tempo to [60,180], takes
    p = (tempo - 60) / 120 in [0,1], and returns
    (clamp(255 p), clamp(255 energy), clamp(255 (1 - p))), each channel an
    integer in [0,255]; bpm_to_rgb 150 0.9 = (191, 229, 63). *)
Theorem bpm_to_rgb_spec :
  (forall tempo energy,
     let p := (Qmax 60 (Qmin 180 tempo) - 60) / 120 in
     0 <= p <= 1 /\
     bpm_to_rgb tempo energy =
       (clamp (255 * p), clamp (255 * energy), clamp (255 * (1 - p))) /\
     rgb_ok (bpm_to_rgb tempo energy)) /\
  bpm_to_rgb 150 0.9 = (191, 229, 63)%Z.
Proof.
  split; [|vm_compute; reflexivity].
  intros tempo energy p.
  assert (Heq : bpm_to_rgb tempo energy =
                (clamp (255 * p), clamp (255 * energy), clamp (255 * (1 - p)))).
  { unfold bpm_to_rgb, p. rewrite py_minQ_Qmin, py_maxQ_Qmax. reflexivity. }
  split; [|split; [exact Heq|]].
  - assert (H60 : 60 <= Qmax 60 (Qmin 180 tempo)) by apply Q.le_max_l.
    assert (H180 : Qmax 60 (Qmin 180 tempo) <= 180).
    { apply Q.max_lub; [discriminate|apply Q.le_min_l]. }
    unfold p. split.
    + apply Qle_shift_div_l; [reflexivity|].
      rewrite Qmult_0_l. apply (Qplus_le_l _ _ 60). ring_simplify. exact H60.
    + apply Qle_shift_div_r; [reflexivity|].
      apply (Qplus_le_l _ _ 60). ring_simplify. exact H180.
  - rewrite Heq. unfold rgb_ok. repeat split; apply clamp_bounds.
Qed.

(** C8: once a cache miss for [aid] has stored the provider's genre list,
    the entry stays unchanged through any further requests, and every later
    lookup of [aid] returns it with the state (cache and provider call log)
    unchanged, whatever the provider would answer. *)
Theorem genre_cache_hit_after_miss (st : server_state) (aid : cache_key)
    (g : option (list string)) (reqs : list request) (ar : artist_resp) :
  cache_lookup (_artist_genre_cache st) aid = None ->
  let gs := match g with Some l => l | None => [] end in
  let st2 := serve reqs (snd (get_genres aid (AR_Obj g) st)) in
  cache_lookup (_artist_genre_cache st2) aid = Some gs /\
  get_genres aid ar st2 = (Ok gs, st2).
Proof.
  intros Hmiss gs st2.
  assert (Hst1 : cache_lookup (_artist_genre_cache (snd (get_genres aid (AR_Obj g) st)))
                   aid = Some gs).
  { unfold get_genres. rewrite Hmiss. simpl. apply cache_set_same. exact Hmiss. }
  assert (Hst2 : cache_lookup (_artist_genre_cache st2) aid = Some gs)
    by (apply serve_keeps; exact Hst1).
  split; [exact Hst2|].
  unfold get_genres at 1. rewrite Hst2. reflexivity.
Qed.

(** C9: [mix_rgb] never divides by zero and returns integer channels in
    [0,255] for every list of weighted colors; on the empty list it returns
    (0, 0, 0). *)
Theorem mix_rgb_total :
  (forall colors_with_weights,
     exists c, mix_rgb colors_with_weights = Ok c /\ rgb_ok c) /\
  mix_rgb [] = Ok (0, 0, 0)%Z.
Proof.
  split; [|reflexivity].
  intro cw. unfold mix_rgb. cbv zeta.
  rewrite !py_div_ok by apply py_or_float_nonzero. simpl.
  eexists. split; [reflexivity|].
  unfold rgb_ok. repeat split; apply clamp_bounds.
Qed.

(** C10: [score_buckets] depends only on the lowercased, space-joined text of
    its input; a keyword can therefore span two genre strings:
    ["hip"; "hop"] gives PURPLE a positive weight. *)
Theorem score_buckets_text_only :
  (forall g1 g2,
     str_lower (py_join " " g1) = str_lower (py_join " " g2) ->
     score_buckets g1 = score_buckets g2) /\
  exists w, score_buckets ["hip"; "hop"]%string = Ok w /\
            0 < dict_get_default w "PURPLE"%string 0.
Proof.
  split.
  - intros g1 g2 H. unfold score_buckets. rewrite H. reflexivity.
  - eexists. split; [vm_compute; reflexivity|]. vm_compute. reflexivity.
Qed.

(** * Witnesses *)

Lemma score_buckets_fallback_witness :
  keyword_hits (str_lower (py_join " " [])) = false /\
  exists w, score_buckets [] = Ok w /\ weights_eqb w fallback_distribution = true.
Proof.
  split; [vm_compute; reflexivity|].
  apply score_buckets_fallback. vm_compute. reflexivity.
Defined.

Lemma genre_cache_hit_after_miss_witness :
  cache_lookup (_artist_genre_cache witness_state) (Some "A1"%string) = None /\
  let st2 := serve witness_requests
               (snd (get_genres (Some "A1"%string)
                       (AR_Obj (Some ["metal"%string])) witness_state)) in
  cache_lookup (_artist_genre_cache st2) (Some "A1"%string) = Some ["metal"%string] /\
  get_genres (Some "A1"%string) (AR_Raise ConnectionError) st2 =
    (Ok ["metal"%string], st2).
Proof.
  split; [reflexivity|].
  apply (genre_cache_hit_after_miss witness_state (Some "A1"%string)
           (Some ["metal"%string]) witness_requests (AR_Raise ConnectionError)).
  reflexivity.
Defined.

Lemma score_buckets_text_only_witness :
  str_lower (py_join " " ["Hip Hop"%string]) =
    str_lower (py_join " " ["hip"; "hop"]%string) /\
  score_buckets ["Hip Hop"%string] = score_buckets ["hip"; "hop"]%string.
Proof.
  split; [vm_compute; reflexivity|].
  apply (proj1 score_buckets_text_only). vm_compute. reflexivity.
Defined.

(** * Further properties *)

(** ** Truncation and clamping *)

Lemma py_int_floor (x : Q) : 0 <= x -> py_int x = Qfloor x.
Proof.
  destruct x as [n d]. unfold py_int, Qfloor, Qle. simpl. intro H.
  apply Z.quot_div_nonneg; lia.
Qed.


Lemma py_int_unit_255 (x : Q) : unit_interval x -> (0 <= py_int (x * 255) <= 255)%Z.
Proof.
  intros [H0 H1].
  assert (Hx : 0 <= x * 255).
  { apply Qmult_le_0_compat; [exact H0|discriminate]. }
  rewrite py_int_floor by exact Hx. split.
  - change 0%Z with (Qfloor 0). apply Qfloor_resp_le. exact Hx.
  - change 255%Z with (Qfloor 255). apply Qfloor_resp_le.
    rewrite <- (Qmult_1_l 255) at 2. apply Qmult_le_compat_r; [exact H1|discriminate].
Qed.

Lemma clamp01_Qminmax (x : Q) : clamp01 x = Qmax 0 (Qmin 1 x).
Proof. unfold clamp01. rewrite py_minQ_Qmin, py_maxQ_Qmax. reflexivity. Qed.

Lemma unit_mult (a b : Q) :
  unit_interval a -> unit_interval b -> unit_interval (a * b).
Proof.
  intros [Ha0 Ha1] [Hb0 Hb1]. split.
  - apply Qmult_le_0_compat; assumption.
  - apply (Qle_trans _ (1 * b)).
    + apply Qmult_le_compat_r; assumption.
    + rewrite Qmult_1_l. exact Hb1.
Qed.

Lemma unit_one_minus (a : Q) : unit_interval a -> unit_interval (1 - a).
Proof.
  intros [H0 H1]. split.
  - apply (Qplus_le_l _ _ a). ring_simplify. exact H1.
  - apply (Qplus_le_l _ _ a). ring_simplify.
    rewrite <- (Qplus_0_l 1) at 1. apply Qplus_le_compat; [exact H0|apply Qle_refl].
Qed.

Lemma clamp01_unit (x : Q) : unit_interval (clamp01 x).
Proof.
  rewrite clamp01_Qminmax. split.
  - apply Q.le_max_l.
  - apply Q.max_lub; [discriminate|apply Q.le_min_l].
Qed.

Lemma clamp01_id (x : Q) : unit_interval x -> clamp01 x == x.
Proof.
  intros [H0 H1]. rewrite clamp01_Qminmax.
  rewrite (Q.min_r 1 x H1). apply Q.max_r. exact H0.
Qed.

Lemma hsv_to_rgb_unit (h s v : Q) :
  unit_interval h -> unit_interval s -> unit_interval v ->
  let '(r, g, b) := hsv_to_rgb h s v in
  unit_interval r /\ unit_interval g /\ unit_interval b.
Proof.
  intros Hh Hs Hv. unfold hsv_to_rgb.
  destruct (Qeq_bool s 0); [auto|].
  assert (H6 : 0 <= h * 6).
  { apply Qmult_le_0_compat; [apply Hh|discriminate]. }
  set (i := py_int (h * 6)). set (f := h * 6 - inject_Z i).
  assert (Hf : unit_interval f).
  { unfold f, i. rewrite py_int_floor by exact H6.
    set (F := Qfloor (h * 6)).
    pose proof (Qfloor_le (h * 6)) as Hlo. pose proof (Qlt_floor (h * 6)) as Hhi.
    fold F in Hlo, Hhi. rewrite inject_Z_plus in Hhi. split.
    - apply Qle_minus_iff in Hlo. exact Hlo.
    - apply (Qplus_le_l _ _ (inject_Z F)).
      setoid_replace (h * 6 - inject_Z F + inject_Z F) with (h * 6) by ring.
      rewrite Qplus_comm. apply Qlt_le_weak. exact Hhi. }
  assert (Hp : unit_interval (v * (1 - s))) by auto using unit_mult, unit_one_minus.
  assert (Hq : unit_interval (v * (1 - s * f))) by auto using unit_mult, unit_one_minus.
  assert (Ht : unit_interval (v * (1 - s * (1 - f))))
    by auto using unit_mult, unit_one_minus.
  repeat match goal with
         | |- context [match ?x with _ => _ end] =>
             lazymatch type of x with
             | Z => destruct x
             | positive => destruct x
             end
         end; auto.
Qed.


(** [hue_to_rgb] returns three integers in [0,255] for every hue, saturation
    and value, in range or not: its inputs pass through [clamp01]. *)
Theorem hue_to_rgb_bounds (h s v : Q) : rgb_ok (hue_to_rgb h s v).
Proof.
  unfold hue_to_rgb.
  pose proof (hsv_to_rgb_unit (clamp01 h) (clamp01 s) (clamp01 v)
                (clamp01_unit h) (clamp01_unit s) (clamp01_unit v)) as H.
  destruct (hsv_to_rgb (clamp01 h) (clamp01 s) (clamp01 v)) as [[r0 g0] b0].
  destruct H as [Hr [Hg Hb]]. unfold rgb_ok, channel_ok.
  auto using py_int_unit_255.
Qed.

(** [clamp01] always returns a value in [0,1], and leaves a value already in
    [0,1] unchanged. *)
Theorem clamp01_range (x : Q) :
  unit_interval (clamp01 x) /\ (unit_interval x -> clamp01 x == x).
Proof. split; [apply clamp01_unit|apply clamp01_id]. Qed.

(** [clamp(x, lo, hi)] lies in [lo, hi] when [lo <= hi], and is [int(x)]
    itself when [int(x)] is already in range. *)
Theorem clamp_lohi_range (x : Q) (lo hi : Z) :
  (lo <= hi)%Z ->
  (lo <= clamp_lohi x lo hi <= hi)%Z /\
  ((lo <= py_int x <= hi)%Z -> clamp_lohi x lo hi = py_int x).
Proof. unfold clamp_lohi. lia. Qed.



Lemma clamp_lohi_range_witness :
  (0 <= 100)%Z /\ (0 <= clamp_lohi 130 0 100 <= 100)%Z.
Proof.
  split; [lia|]. apply (proj1 (clamp_lohi_range 130 0 100 ltac:(lia))).
Defined.

(** ** Keyword counting *)

Lemma dict_get_mid (P R : weights) (k : string) (x : Q) :
  ~ In k (map fst P) -> dict_get (P ++ (k, x) :: R) k = Ok x.
Proof.
  induction P as [|[k' v'] P IH]; simpl; intro Hn.
  - rewrite String.eqb_refl. reflexivity.
  - destruct (String.eqb k k') eqn:E.
    + apply String.eqb_eq in E. subst. tauto.
    + apply IH. tauto.
Qed.

Lemma dict_set_mid (P R : weights) (k : string) (x v : Q) :
  ~ In k (map fst P) -> dict_set (P ++ (k, x) :: R) k v = P ++ (k, v) :: R.
Proof.
  induction P as [|[k' v'] P IH]; simpl; intro Hn.
  - rewrite String.eqb_refl. reflexivity.
  - destruct (String.eqb k k') eqn:E.
    + apply String.eqb_eq in E. subst. tauto.
    + rewrite IH by tauto. reflexivity.
Qed.

Lemma inject_Z_plus_one (n : Z) : inject_Z n + 1 = inject_Z (n + 1).
Proof. unfold Qplus, inject_Z. simpl. rewrite !Z.mul_1_r. reflexivity. Qed.

Lemma hit_count_cons (text kw : string) (kws : list string) :
  hit_count text (kw :: kws) =
  ((if str_contains kw text then 1 else 0) + hit_count text kws)%Z.
Proof.
  unfold hit_count. cbn [filter]. destruct (str_contains kw text).
  - cbn [length]. rewrite Nat2Z.inj_succ. lia.
  - lia.
Qed.

Lemma score_keywords_mid (text b : string) (kws : list string) (P R : weights) :
  ~ In b (map fst P) ->
  forall n, score_keywords text b kws (P ++ (b, inject_Z n) :: R) =
            Ok (P ++ (b, inject_Z (n + hit_count text kws)) :: R).
Proof.
  intros Hn. induction kws as [|kw kws IH]; intro n; cbn [score_keywords].
  - replace (hit_count text []) with 0%Z by reflexivity.
    rewrite Z.add_0_r. reflexivity.
  - rewrite hit_count_cons. destruct (str_contains kw text); cbn [res_bind].
    + rewrite dict_get_mid by exact Hn. cbn [res_bind].
      rewrite dict_set_mid by exact Hn. rewrite inject_Z_plus_one, IH.
      rewrite Z.add_assoc. reflexivity.
    + rewrite IH, Z.add_0_l. reflexivity.
Qed.

Lemma score_table_counts (text : string) (T : dict (list string)) :
  forall P : weights, NoDup (map fst P ++ map fst T) ->
  score_table text T (P ++ map (fun '(b, _) => (b, 0)) T) =
  Ok (P ++ map (fun '(b, kws) => (b, inject_Z (hit_count text kws))) T).
Proof.
  induction T as [|[b kws] T IH]; intros P Hnd; simpl; [reflexivity|].
  assert (Hb : ~ In b (map fst P)).
  { simpl in Hnd. apply NoDup_remove_2 in Hnd. intro H. apply Hnd.
    apply in_or_app. left. exact H. }
  change (0 : Q) with (inject_Z 0).
  rewrite (score_keywords_mid text b kws P _ Hb 0). simpl.
  specialize (IH (P ++ [(b, inject_Z (hit_count text kws))])).
  rewrite <- !app_assoc in IH. simpl in IH. apply IH.
  rewrite map_app, <- app_assoc. exact Hnd.
Qed.

Lemma counts_sum (text : string) (T : dict (list string)) :
  weights_sum (map (fun '(b, kws) => (b, inject_Z (hit_count text kws))) T) ==
  inject_Z (fold_right Z.add 0%Z (map (fun '(_, kws) => hit_count text kws) T)).
Proof.
  induction T as [|[b kws] T IH]; [reflexivity|]. simpl map. simpl fold_right.
  rewrite weights_sum_cons, IH, inject_Z_plus. reflexivity.
Qed.

Lemma counts_ratio (text : string) (T : dict (list string)) (S : Q) (tot : Z) :
  S == inject_Z tot ->
  Forall2 (fun kv e => fst kv = fst e /\
                       snd kv == inject_Z (hit_count text (snd e)) / inject_Z tot)
    (divide_all (map (fun '(b, kws) => (b, inject_Z (hit_count text kws))) T) S) T.
Proof.
  intro HS. induction T as [|[b kws] T IH]; simpl; constructor; auto.
  split; [reflexivity|]. simpl. rewrite HS. reflexivity.
Qed.

(** When at least one keyword occurs in the search text, no fallback is
    applied: every bucket's weight is the number of its keywords found in the
    text divided by the total number of keyword matches (a keyword that
    contains another, like "k-pop" and "pop", counts twice). *)
Theorem score_buckets_hit_ratio (genres : list string) :
  let text := str_lower (py_join " " genres) in
  (0 < total_hits text)%Z ->
  exists w, score_buckets genres = Ok w /\
    Forall2 (fun kv e => fst kv = fst e /\
                         snd kv == inject_Z (hit_count text (snd e)) /
                                   inject_Z (total_hits text))
            w GENRE_KEYWORDS.
Proof.
  intros text Hpos. unfold score_buckets, score_text. fold text. cbv zeta.
  change (map (fun '(name, _) => (name, 0)) BUCKETS)
    with ([] ++ map (fun '(b, _) => (b, 0)) GENRE_KEYWORDS).
  rewrite score_table_counts by (vm_compute; repeat constructor; simpl; intuition discriminate).
  cbn [app res_bind].
  pose proof (counts_sum text GENRE_KEYWORDS) as Hs. fold (total_hits text) in Hs.
  set (c := map (fun '(b, kws) => (b, inject_Z (hit_count text kws))) GENRE_KEYWORDS)
    in *.
  assert (Hnz : ~ weights_sum c == 0).
  { rewrite Hs. intro H.
    apply (proj1 (inject_Z_injective _ 0)) in H. lia. }
  destruct (Qeq_bool (weights_sum c) 0) eqn:E.
  { apply Qeq_bool_eq in E. contradiction. }
  assert (Ht : py_or_float (weights_sum c) 1 = weights_sum c).
  { unfold py_or_float. rewrite E. reflexivity. }
  rewrite Ht, (normalize_ok c _ Hnz).
  eexists. split; [reflexivity|]. apply counts_ratio. exact Hs.
Qed.

Lemma score_buckets_hit_ratio_witness :
  (0 < total_hits (str_lower (py_join " " ["K-Pop"%string])))%Z /\
  exists w, score_buckets ["K-Pop"%string] = Ok w /\
    Forall2 (fun kv e => fst kv = fst e /\
               snd kv == inject_Z (hit_count (str_lower (py_join " " ["K-Pop"%string])) (snd e)) /
                         inject_Z (total_hits (str_lower (py_join " " ["K-Pop"%string]))))
            w GENRE_KEYWORDS.
Proof.
  split; [vm_compute; reflexivity|].
  apply (score_buckets_hit_ratio ["K-Pop"%string]). vm_compute. reflexivity.
Defined.

(** ** Case insensitivity *)








(** ** Saturation and brightness *)

(** For every popularity (present, absent or out of range) saturation lies in
    [0.6, 1.0] and brightness in [0.5, 0.9]; an explicit track gets exactly
    0.1 more saturation than a clean one with the same popularity (never
    capped, since a clean track's saturation is at most 0.9). *)
Theorem bucket_params_ranges (popularity : option Z) :
  let '(sat, bri) := bucket_params popularity false in
  0.6 <= sat <= 0.9 /\ 0.5 <= bri <= 0.9 /\
  fst (bucket_params popularity true) == sat + 0.1 /\
  snd (bucket_params popularity true) == bri.
Proof.
  unfold bucket_params. cbv zeta.
  set (pop := clamp01 (inject_Z (py_or_int popularity 50) / 100)).
  destruct (clamp01_unit (inject_Z (py_or_int popularity 50) / 100)) as [H0 H1].
  fold pop in H0, H1.
  assert (Hs0 := clamp01_id (0.6 + 0.3 * pop + 0.0) ltac:(unfold unit_interval; lra)).
  assert (Hs1 := clamp01_id (0.6 + 0.3 * pop + 0.1) ltac:(unfold unit_interval; lra)).
  assert (Hb := clamp01_id (0.5 + 0.4 * pop) ltac:(unfold unit_interval; lra)).
  simpl fst. simpl snd. rewrite Hs0, Hs1, Hb. repeat split; lra.
Qed.

(** ** Tempo colorizer *)

Lemma bpm_p_unit (tempo : Q) :
  unit_interval ((Qmax 60 (Qmin 180 tempo) - 60) / 120).
Proof.
  assert (H60 : 60 <= Qmax 60 (Qmin 180 tempo)) by apply Q.le_max_l.
  assert (H180 : Qmax 60 (Qmin 180 tempo) <= 180).
  { apply Q.max_lub; [discriminate|apply Q.le_min_l]. }
  unfold unit_interval, Qdiv. change (/ 120) with (1 # 120). split; lra.
Qed.

Lemma clamp_mono_nonneg (x y : Q) : 0 <= x -> x <= y -> (clamp x <= clamp y)%Z.
Proof.
  intros Hx Hxy. unfold clamp, clamp_lohi.
  rewrite !py_int_floor by lra.
  pose proof (Qfloor_resp_le x y Hxy). lia.
Qed.

(** "Faster tempo -> warmer color": a faster tempo never lowers the red
    channel nor raises the blue channel of [bpm_to_rgb]. *)
Theorem bpm_to_rgb_tempo_monotone (t1 t2 energy : Q) :
  t1 <= t2 ->
  let '(r1, _, b1) := bpm_to_rgb t1 energy in
  let '(r2, _, b2) := bpm_to_rgb t2 energy in
  (r1 <= r2)%Z /\ (b2 <= b1)%Z.
Proof.
  intro H. unfold bpm_to_rgb. rewrite !py_minQ_Qmin, !py_maxQ_Qmax.
  pose proof (bpm_p_unit t1) as [H10 H11]. pose proof (bpm_p_unit t2) as [H20 H21].
  assert (Hm : Qmax 60 (Qmin 180 t1) <= Qmax 60 (Qmin 180 t2)).
  { apply Q.max_le_compat_l. apply Q.min_le_compat_l. exact H. }
  assert (Hp : (Qmax 60 (Qmin 180 t1) - 60) / 120 <= (Qmax 60 (Qmin 180 t2) - 60) / 120).
  { unfold Qdiv. change (/ 120) with (1 # 120). lra. }
  split; apply clamp_mono_nonneg; lra.
Qed.

Lemma bpm_to_rgb_tempo_monotone_witness :
  100 <= 150 /\
  let '(r1, _, b1) := bpm_to_rgb 100 0.5 in
  let '(r2, _, b2) := bpm_to_rgb 150 0.5 in
  (r1 <= r2)%Z /\ (b2 <= b1)%Z.
Proof.
  split; [discriminate|]. apply bpm_to_rgb_tempo_monotone. discriminate.
Defined.

(** ** The [/update_context] route *)

Lemma mix_rgb_ok (cw : list (rgb * Q)) : exists c, mix_rgb cw = Ok c /\ rgb_ok c.
Proof.
  unfold mix_rgb. cbv zeta.
  rewrite !py_div_ok by apply py_or_float_nonzero. simpl.
  eexists. split; [reflexivity|].
  unfold rgb_ok. repeat split; apply clamp_bounds.
Qed.





Lemma mbind_Ok {A B} (m : M A) (k : A -> M B) (st st1 : server_state) (a : A) :
  m st = (Ok a, st1) -> mbind m k st = k a st1.
Proof. intro H. unfold mbind. rewrite H. reflexivity. Qed.

Lemma mbind_Raise {A B} (m : M A) (k : A -> M B) (st st1 : server_state) (e : exn) :
  m st = (Raise e, st1) -> mbind m k st = (Raise e, st1).
Proof. intro H. unfold mbind. rewrite H. reflexivity. Qed.

Lemma score_buckets_ok (gs : list string) : exists w, score_buckets gs = Ok w.
Proof.
  destruct (score_text_distribution (str_lower (py_join " " gs))) as [w [Hw _]].
  exists w. exact Hw.
Qed.

Lemma bucket_base_rgb_ok (w : weights) (temp : option Q) (pop : option Z) (ex : bool) :
  exists c, bucket_base_rgb w temp pop ex = Ok c.
Proof.
  unfold bucket_base_rgb. destruct (bucket_params pop ex) as [sat bri].
  destruct (mix_rgb_ok (bucket_colors w sat bri)) as [c [Hc _]]. eauto.
Qed.

Lemma safe_get_current_genres_miss (item : item_obj) (a : artist_obj)
    (rest : list artist_obj) (g : option (list string)) (st : server_state) :
  item_truthy item = true -> item_artists item = Some (a :: rest) ->
  cache_lookup (_artist_genre_cache st) (artist_id a) = None ->
  let gl := match g with Some l => l | None => [] end in
  safe_get_current_genres (PB_Obj (Some item)) (AR_Obj g) st =
    (Ok (item_name item, artist_name a, gl,
         match item_popularity item with Some p => p | None => 50%Z end,
         match item_explicit item with Some b => b | None => false end,
         item_id item),
     {| _artist_genre_cache :=
          cache_set (_artist_genre_cache st) (artist_id a) gl;
        artist_calls := artist_calls st ++ [artist_id a] |}).
Proof.
  intros Ht Ha Hc gl. unfold safe_get_current_genres. rewrite Ht, Ha.
  unfold mbind, get_genres. cbn [negb]. cbv beta iota zeta. rewrite Hc. reflexivity.
Qed.

(** ** Error and cache behaviour of [/update_context] *)

(** When the artist lookup fails on a cache miss, the route answers 500, the
    cache is unchanged and the lookup has been sent: the next request for the
    same artist asks the provider again. *)
Theorem update_context_artist_failure (temp : option Q) (mode : option string)
    (item : item_obj) (a : artist_obj) (rest : list artist_obj) (e : exn)
    (st : server_state) :
  item_truthy item = true -> item_artists item = Some (a :: rest) ->
  cache_lookup (_artist_genre_cache st) (artist_id a) = None ->
  update_context temp mode (PB_Obj (Some item)) (AR_Raise e) st =
    (HTTP500 e, after_miss st (artist_id a)).
Proof.
  intros Ht Ha Hc. unfold update_context, update_context_body. cbv zeta.
  rewrite (mbind_Raise _ _ st (after_miss st (artist_id a)) e); [reflexivity|].
  unfold safe_get_current_genres. rewrite Ht, Ha.
  unfold mbind, get_genres. cbn [negb]. cbv beta iota zeta. rewrite Hc. reflexivity.
Qed.

Lemma update_context_snd (temp : option Q) (mode : option string)
    (pb : playback) (ar : artist_resp) (st : server_state) :
  snd (update_context temp mode pb ar st) = snd (safe_get_current_genres pb ar st).
Proof.
  unfold update_context.
  transitivity (snd (update_context_body temp mode pb ar st)).
  - destruct (update_context_body temp mode pb ar st) as [[x|e] st']; reflexivity.
  - unfold update_context_body. apply mbind_snd.
    intros [[[[[tr ar'] gs] pop] ex] tid].
    apply mbind_preserves; [apply lift_preserves|]. intro w.
    apply mbind_preserves; [apply lift_preserves|]. intros [[r0 g0] b0].
    eauto 10 with preserves.
Qed.

(** An item whose ["artists"] key is missing raises [KeyError]; an empty
    ["artists"] list raises [IndexError]; either way the answer is 500 and
    no artist is looked up. *)
Theorem update_context_bad_artists (temp : option Q) (mode : option string)
    (item : item_obj) (ar : artist_resp) (st : server_state) :
  item_truthy item = true ->
  (item_artists item = None ->
   update_context temp mode (PB_Obj (Some item)) ar st = (HTTP500 KeyError, st)) /\
  (item_artists item = Some [] ->
   update_context temp mode (PB_Obj (Some item)) ar st = (HTTP500 IndexError, st)).
Proof.
  intro Ht. split; intro Ha; unfold update_context, update_context_body; cbv zeta;
    (rewrite (mbind_Raise _ _ st st (match item_artists item with
                                     | None => KeyError | _ => IndexError end));
     [rewrite Ha; reflexivity|]);
    unfold safe_get_current_genres; rewrite Ht, Ha; reflexivity.
Qed.

(** A track without a name answers 500 ([None[:15]]), but the artist's
    genres fetched on the way are already in the cache. *)
Theorem update_context_missing_name (temp : option Q) (mode : option string)
    (item : item_obj) (a : artist_obj) (rest : list artist_obj)
    (g : option (list string)) (st : server_state) :
  item_truthy item = true -> item_artists item = Some (a :: rest) ->
  item_name item = None ->
  cache_lookup (_artist_genre_cache st) (artist_id a) = None ->
  fst (update_context temp mode (PB_Obj (Some item)) (AR_Obj g) st) = HTTP500 TypeError /\
  cache_lookup
    (_artist_genre_cache (snd (update_context temp mode (PB_Obj (Some item)) (AR_Obj g) st)))
    (artist_id a) = Some (match g with Some l => l | None => [] end).
Proof.
  intros Ht Ha Hn Hc.
  pose proof (safe_get_current_genres_miss item a rest g st Ht Ha Hc) as Hs.
  cbv zeta in Hs. rewrite Hn in Hs. split.
  - unfold update_context, update_context_body. cbv zeta.
    rewrite (mbind_Ok _ _ _ _ _ Hs). cbv beta iota.
    destruct (score_buckets_ok (match g with Some l => l | None => [] end)) as [w Hw].
    rewrite (mbind_Ok _ _ _ _ w) by (unfold lift; rewrite Hw; reflexivity).
    cbv beta.
    destruct (bucket_base_rgb_ok w temp
                (Some match item_popularity item with Some p => p | None => 50%Z end)
                match item_explicit item with Some b => b | None => false end)
      as [[[r0 g0] b0] Hb].
    rewrite (mbind_Ok _ _ _ _ (r0, g0, b0)) by (unfold lift; rewrite Hb; reflexivity).
    cbv beta iota. reflexivity.
  - rewrite update_context_snd, Hs. simpl. apply cache_set_same. exact Hc.
Qed.

(** When the artist's genres are cached, the provider's answer to an artist
    lookup plays no part: the response is the same for any answer, and the
    server state is unchanged. *)
Theorem update_context_cached_artist (temp : option Q) (mode : option string)
    (item : item_obj) (a : artist_obj) (rest : list artist_obj)
    (gs : list string) (ar ar' : artist_resp) (st : server_state) :
  item_truthy item = true -> item_artists item = Some (a :: rest) ->
  cache_lookup (_artist_genre_cache st) (artist_id a) = Some gs ->
  update_context temp mode (PB_Obj (Some item)) ar st =
    update_context temp mode (PB_Obj (Some item)) ar' st /\
  snd (update_context temp mode (PB_Obj (Some item)) ar st) = st.
Proof.
  intros Ht Ha Hc.
  assert (Hs : forall ar0, safe_get_current_genres (PB_Obj (Some item)) ar0 st =
    (Ok (item_name item, artist_name a, gs,
         match item_popularity item with Some p => p | None => 50%Z end,
         match item_explicit item with Some b => b | None => false end,
         item_id item), st)).
  { intro ar0. unfold safe_get_current_genres. rewrite Ht, Ha.
    unfold mbind, get_genres. cbn [negb]. cbv beta iota zeta. rewrite Hc.
    reflexivity. }
  split.
  - unfold update_context, update_context_body. cbv zeta.
    rewrite (mbind_Ok _ _ _ _ _ (Hs ar)), (mbind_Ok _ _ _ _ _ (Hs ar')). reflexivity.
  - rewrite update_context_snd, Hs. reflexivity.
Qed.

Lemma get_genres_calls (aid k : cache_key) (ar : artist_resp) (st : server_state)
    (v : list string) :
  cache_lookup (_artist_genre_cache st) k = Some v ->
  exists sent, artist_calls (snd (get_genres aid ar st)) = artist_calls st ++ sent /\
               ~ In k sent.
Proof.
  intro Hk. unfold get_genres.
  destruct (cache_lookup (_artist_genre_cache st) aid) eqn:Ea.
  - exists []. rewrite app_nil_r. split; [reflexivity|intros []].
  - exists [aid]. assert (Hne : aid <> k) by (intros ->; congruence).
    split; [destruct ar; reflexivity|].
    intros [Heq|[]]. exact (Hne Heq).
Qed.

(** Once an artist's genres are in the cache, no later request sends a
    lookup for that artist to the provider, whatever the requests are. *)
Theorem serve_cached_artist_not_refetched (reqs : list request)
    (st : server_state) (k : cache_key) (v : list string) :
  cache_lookup (_artist_genre_cache st) k = Some v ->
  exists sent, artist_calls (serve reqs st) = artist_calls st ++ sent /\ ~ In k sent.
Proof.
  revert st. induction reqs as [|rq reqs IH]; intros st Hk; simpl.
  - exists []. rewrite app_nil_r. split; [reflexivity|intros []].
  - set (st1 := snd (update_context (req_temp rq) (req_mode rq) (req_playback rq)
                       (req_artist rq) st)).
    assert (H1 : cache_lookup (_artist_genre_cache st1) k = Some v /\
                 exists s1, artist_calls st1 = artist_calls st ++ s1 /\ ~ In k s1).
    { unfold st1.
      destruct (update_context_state (req_temp rq) (req_mode rq) (req_playback rq)
                  (req_artist rq) st) as [-> | [aid ->]].
      - split; [exact Hk|]. exists []. rewrite app_nil_r. split; [reflexivity|intros []].
      - split; [apply get_genres_keeps; exact Hk|]. eapply get_genres_calls. exact Hk. }
    destruct H1 as [Hk1 [s1 [E1 N1]]].
    destruct (IH st1 Hk1) as [s2 [E2 N2]].
    exists (s1 ++ s2). rewrite E2, E1, app_assoc. split; [reflexivity|].
    intro Hin. apply in_app_or in Hin as [Hin|Hin]; contradiction.
Qed.

(** ** [/volume] and [/playpause] *)

(** The only command [/volume] ever sends is a volume in [0,100], and when
    the provider accepts it the answer reports that same volume. *)
Theorem volume_sends_valid_level (pb : control_playback) (set_v delta : option Z)
    (outcome : option exn) (c : command) :
  In c (snd (volume pb set_v delta outcome)) ->
  exists v, c = SetVolume v /\ (0 <= v <= 100)%Z /\
            (outcome = None -> fst (volume pb set_v delta outcome) = CR200 (JVolume v)).
Proof.
  unfold volume, send, clamp_lohi.
  destruct pb as [e| |s]; simpl; try (intros []).
  destruct (device s) as [d|]; simpl; [|intros []].
  destruct set_v as [v|]; [|destruct delta as [dl|]; [destruct (volume_percent d) as [cv|]|]];
    simpl; try (intros []);
    destruct outcome as [e|]; simpl; intros [<-|[]]; eexists;
    (split; [reflexivity|]); (split; [lia|]); intro Ho; congruence.
Qed.


(** A 400 from [/volume] sends no command, and happens only when nothing is
    playing on a device or when neither [set] nor [delta] is given. *)
Theorem volume_client_errors (pb : control_playback) (set_v delta : option Z)
    (outcome : option exn) (msg : string) (cmds : list command) :
  volume pb set_v delta outcome = (CR400 msg, cmds) ->
  cmds = [] /\
  ((msg = "No active device"%string /\
    (pb = CP_None \/ exists s, pb = CP_Obj s /\ device s = None)) \/
   (msg = "Missing parameters"%string /\ set_v = None /\ delta = None)).
Proof.
  unfold volume, send.
  destruct pb as [e| |s]; [discriminate| |].
  - intro H. inversion H. split; [reflexivity|]. left. split; [reflexivity|]. left. reflexivity.
  - destruct (device s) as [d|] eqn:Ed.
    + destruct set_v as [v|]; [|destruct delta as [dl|]; [destruct (volume_percent d)|]];
        try (destruct outcome; discriminate); try discriminate.
      intro H. inversion H. split; [reflexivity|]. right. auto.
    + intro H. inversion H. split; [reflexivity|]. left. split; [reflexivity|].
      right. exists s. auto.
Qed.

(** Unless reading the playback state fails, [/playpause] sends exactly one
    command: [Pause] when and only when the provider reports the track as
    playing, [Start] otherwise (also when nothing is playing), and on
    success it answers with the action it sent. *)
Theorem play_pause_toggle (pb : control_playback) (outcome : option exn) :
  (forall e, pb <> CP_Raise e) ->
  exists c, snd (play_pause pb outcome) = [c] /\ (c = Pause \/ c = Start) /\
    (c = Pause <-> exists s, pb = CP_Obj s /\ is_playing s = Some true) /\
    (outcome = None -> fst (play_pause pb outcome) = CR200 (JAction (action_name c))).
Proof.
  intro Hpb. unfold play_pause, send.
  destruct pb as [e| |s]; [exfalso; exact (Hpb e eq_refl)| |].
  - exists Start. split; [destruct outcome; reflexivity|].
    split; [right; reflexivity|]. split.
    + split; [discriminate|]. intros [s [Hs _]]. discriminate.
    + intros ->. reflexivity.
  - destruct (is_playing s) as [[|]|] eqn:Ep.
    + exists Pause. split; [destruct outcome; reflexivity|].
      split; [left; reflexivity|]. split.
      * split; [intros _; exists s; auto|reflexivity].
      * intros ->. reflexivity.
    + exists Start. split; [destruct outcome; reflexivity|].
      split; [right; reflexivity|]. split.
      * split; [discriminate|]. intros [s' [Hs Hp]]. inversion Hs; subst. congruence.
      * intros ->. reflexivity.
    + exists Start. split; [destruct outcome; reflexivity|].
      split; [right; reflexivity|]. split.
      * split; [discriminate|]. intros [s' [Hs Hp]]. inversion Hs; subst. congruence.
      * intros ->. reflexivity.
Qed.

(** ** Witnesses of the further properties *)

Lemma update_context_artist_failure_witness :
  update_context None None (PB_Obj (Some item_no_name)) (AR_Raise ConnectionError)
    empty_state = (HTTP500 ConnectionError, after_miss empty_state (Some "A9"%string)).
Proof.
  apply (update_context_artist_failure None None item_no_name
           {| artist_id := Some "A9"%string; artist_name := None |} []
           ConnectionError empty_state); reflexivity.
Defined.

Lemma update_context_bad_artists_witness :
  update_context None None (PB_Obj (Some item_no_artists)) (AR_Obj None) empty_state =
    (HTTP500 IndexError, empty_state).
Proof.
  apply (proj2 (update_context_bad_artists None None item_no_artists (AR_Obj None)
                  empty_state ltac:(reflexivity))).
  reflexivity.
Defined.

Lemma update_context_missing_name_witness :
  fst (update_context None None (PB_Obj (Some item_no_name))
         (AR_Obj (Some ["k-pop"%string])) empty_state) = HTTP500 TypeError /\
  cache_lookup
    (_artist_genre_cache (snd (update_context None None (PB_Obj (Some item_no_name))
                                 (AR_Obj (Some ["k-pop"%string])) empty_state)))
    (Some "A9"%string) = Some ["k-pop"%string].
Proof.
  apply (update_context_missing_name None None item_no_name
           {| artist_id := Some "A9"%string; artist_name := None |} []
           (Some ["k-pop"%string]) empty_state); reflexivity.
Defined.

Lemma update_context_cached_artist_witness :
  update_context (Some 30) None (PB_Obj (Some witness_item)) (AR_Raise ConnectionError)
    witness_state =
  update_context (Some 30) None (PB_Obj (Some witness_item))
    (AR_Obj (Some ["metal"%string])) witness_state /\
  snd (update_context (Some 30) None (PB_Obj (Some witness_item))
         (AR_Raise ConnectionError) witness_state) = witness_state.
Proof.
  apply (update_context_cached_artist (Some 30) None witness_item
           {| artist_id := Some "B2"%string; artist_name := Some "Miles Davis"%string |}
           [] ["jazz"%string]); reflexivity.
Defined.

Lemma serve_cached_artist_not_refetched_witness :
  exists sent, artist_calls (serve cached_requests witness_state) =
                 artist_calls witness_state ++ sent /\ ~ In (Some "B2"%string) sent.
Proof.
  apply (serve_cached_artist_not_refetched cached_requests witness_state
           (Some "B2"%string) ["jazz"%string]).
  reflexivity.
Defined.

Lemma volume_sends_valid_level_witness :
  exists v, SetVolume 100 = SetVolume v /\ (0 <= v <= 100)%Z /\
    (None = @None exn ->
     fst (volume (CP_Obj loud_state) None (Some 20%Z) None) = CR200 (JVolume v)).
Proof.
  apply (volume_sends_valid_level (CP_Obj loud_state) None (Some 20%Z) None
           (SetVolume 100)).
  vm_compute. left. reflexivity.
Defined.


Lemma volume_client_errors_witness :
  @nil command = [] /\
  (("Missing parameters"%string = "No active device"%string /\
    (CP_Obj paused_state = CP_None \/
     exists s, CP_Obj paused_state = CP_Obj s /\ device s = None)) \/
   ("Missing parameters"%string = "Missing parameters"%string /\
    @None Z = None /\ @None Z = None)).
Proof.
  apply (volume_client_errors (CP_Obj paused_state) None None None
           "Missing parameters"%string []).
  reflexivity.
Defined.

Lemma play_pause_toggle_witness :
  exists c, snd (play_pause (CP_Obj paused_state) None) = [c] /\
    (c = Pause \/ c = Start) /\
    (c = Pause <-> exists s, CP_Obj paused_state = CP_Obj s /\ is_playing s = Some true) /\
    (None = @None exn ->
     fst (play_pause (CP_Obj paused_state) None) = CR200 (JAction (action_name c))).
Proof.
  apply (play_pause_toggle (CP_Obj paused_state) None).
  intros e H. discriminate.
Defined.
